(** * The C interface declared by [src/editor/include/editor.h]

    The repository's only source file is a header: five [#include]
    directives, two [typedef]s, one object-like macro and seven function
    prototypes, the last two under a [// debugging functions] comment.
    No function body is part of the source.  The development therefore
    embeds the header as the list of its items, in source order, and
    proves properties of the declared surface by computing on that list. *)

From Stdlib Require Import Bool Ascii String List NArith Lia.
Import ListNotations.
Open Scope string_scope.

(** ** C types and declarators, as far as the header uses them *)

(** Clang's pointer nullability qualifiers.  The header uses none; the
    constructor exists so that their absence is a property of the header
    and not of the syntax. *)
Inductive nullability : Type :=
| Nullable
| Nonnull
| NullUnspecified.

Inductive ctype : Type :=
| TVoid
| TChar
| TNamed (name : string)
| TConst (t : ctype)
| TPtr (t : ctype)
| TAnnot (a : nullability) (t : ctype).

(** A parameter of a prototype; the name is optional in C
    ([renderer_get_val(Renderer)] has none). *)
Record param : Type := mkParam {
  p_type : ctype;
  p_name : option string
}.

Record proto : Type := mkProto {
  f_ret : ctype;
  f_name : string;
  f_params : list param
}.

(** Bodies of object-like macros. *)
Inductive cexpr : Type :=
| ELit (n : N)
| EAlignof (t : ctype)
| ESizeof (t : ctype)
| EParen (e : cexpr).

Inductive item : Type :=
| Include (path : string)
| Typedef (t : ctype) (name : string)
| Define (name : string) (body : cexpr)
| Comment (text : string)
| Decl (f : proto).

Definition header : Type := list item.

(** ** The header, item by item *)

Definition Renderer : ctype := TNamed "Renderer".
Definition Editor : ctype := TNamed "Editor".

Definition named (t : ctype) (n : string) : param := mkParam t (Some n).
Definition unnamed (t : ctype) : param := mkParam t None.

(** [#define ARENA_ALIGN (alignof(max_align_t))] *)
Definition ARENA_ALIGN : cexpr := EParen (EAlignof (TNamed "max_align_t")).

(** [Renderer renderer_create(id view, id device);] *)
Definition renderer_create : proto :=
  mkProto Renderer "renderer_create"
    [named (TNamed "id") "view"; named (TNamed "id") "device"].

(** [Renderer renderer_draw(Renderer renderer, id view);] *)
Definition renderer_draw : proto :=
  mkProto Renderer "renderer_draw"
    [named Renderer "renderer"; named (TNamed "id") "view"].

(** [void renderer_resize(Renderer renderer, CGSize new_size);] *)
Definition renderer_resize : proto :=
  mkProto TVoid "renderer_resize"
    [named Renderer "renderer"; named (TNamed "CGSize") "new_size"].

(** [void renderer_handle_keydown(Renderer renderer, NSEvent *event);] *)
Definition renderer_handle_keydown : proto :=
  mkProto TVoid "renderer_handle_keydown"
    [named Renderer "renderer"; named (TPtr (TNamed "NSEvent")) "event"].

(** [void renderer_handle_scroll(Renderer renderer, CGFloat dx, CGFloat dy,
                                 NSEventPhase phase);] *)
Definition renderer_handle_scroll : proto :=
  mkProto TVoid "renderer_handle_scroll"
    [named Renderer "renderer"; named (TNamed "CGFloat") "dx";
     named (TNamed "CGFloat") "dy"; named (TNamed "NSEventPhase") "phase"].

(** [void renderer_insert_text(Renderer renderer, const char *text, size_t len);] *)
Definition renderer_insert_text : proto :=
  mkProto TVoid "renderer_insert_text"
    [named Renderer "renderer"; named (TPtr (TConst TChar)) "text";
     named (TNamed "size_t") "len"].

(** [size_t renderer_get_val(Renderer);] *)
Definition renderer_get_val : proto :=
  mkProto (TNamed "size_t") "renderer_get_val" [unnamed Renderer].

Definition debug_marker : string := "debugging functions".

Definition editor_h : header :=
  [ Include "AppKit/AppKit.h";
    Include "Cocoa/Cocoa.h";
    Include "CoreGraphics/CoreGraphics.h";
    Include "MetalKit/MetalKit.h";
    Include "objc/runtime.h";
    Typedef (TPtr TVoid) "Renderer";
    Typedef (TPtr TVoid) "Editor";
    Define "ARENA_ALIGN" ARENA_ALIGN;
    Decl renderer_create;
    Decl renderer_draw;
    Decl renderer_resize;
    Decl renderer_handle_keydown;
    Decl renderer_handle_scroll;
    Comment debug_marker;
    Decl renderer_insert_text;
    Decl renderer_get_val ].

(** ** Printing the model back to C

    The printer is used once, to tie the item list to the text of the
    header: up to runs of white space the two agree. *)

Definition sp (d : string) : string :=
  match d with
  | EmptyString => ""
  | _ => " " ++ d
  end.

Definition annot_name (a : nullability) : string :=
  match a with
  | Nullable => "_Nullable"
  | Nonnull => "_Nonnull"
  | NullUnspecified => "_Null_unspecified"
  end.

Fixpoint is_ptr (t : ctype) : bool :=
  match t with
  | TPtr _ => true
  | TConst u | TAnnot _ u => is_ptr u
  | _ => false
  end.

(** [print_decl t d] prints the declaration of declarator [d] at type [t]. *)
Fixpoint print_decl (t : ctype) (d : string) : string :=
  match t with
  | TVoid => "void" ++ sp d
  | TChar => "char" ++ sp d
  | TNamed n => n ++ sp d
  | TConst u =>
      if is_ptr u then print_decl u ("const" ++ sp d)
      else "const " ++ print_decl u d
  | TPtr u => print_decl u ("*" ++ d)
  | TAnnot a u => print_decl u (annot_name a ++ sp d)
  end.

Definition print_param (p : param) : string :=
  print_decl (p_type p) (match p_name p with Some n => n | None => "" end).

Fixpoint sep_by (s : string) (l : list string) : string :=
  match l with
  | [] => ""
  | [x] => x
  | x :: r => x ++ s ++ sep_by s r
  end.

Definition print_proto (f : proto) : string :=
  print_decl (f_ret f) (f_name f) ++ "("
    ++ sep_by ", " (map print_param (f_params f)) ++ ");".

Definition print_N (n : N) : string :=
  match n with
  | 0%N => "0" | 1%N => "1" | 2%N => "2" | 4%N => "4"
  | 8%N => "8" | 16%N => "16" | _ => "?"
  end.

Fixpoint print_expr (e : cexpr) : string :=
  match e with
  | ELit n => print_N n
  | EAlignof t => "alignof(" ++ print_decl t "" ++ ")"
  | ESizeof t => "sizeof(" ++ print_decl t "" ++ ")"
  | EParen e' => "(" ++ print_expr e' ++ ")"
  end.

Definition print_item (i : item) : string :=
  match i with
  | Include p => "#include <" ++ p ++ ">"
  | Typedef t n => "typedef " ++ print_decl t n ++ ";"
  | Define n b => "#define " ++ n ++ " " ++ print_expr b
  | Comment c => "// " ++ c
  | Decl f => print_proto f
  end.

Definition newline : string := String (ascii_of_nat 10) "".

Definition print_header (h : header) : string :=
  sep_by newline (map print_item h).

Definition is_space (c : ascii) : bool :=
  existsb (Nat.eqb (nat_of_ascii c)) [32; 10; 9; 13]%nat.

(** Collapse every run of white space into one blank. *)
Fixpoint normalize_ws (s : string) : string :=
  match s with
  | EmptyString => ""
  | String c r =>
      if is_space c then
        match r with
        | EmptyString => " "
        | String c' _ => if is_space c' then normalize_ws r
                         else String " " (normalize_ws r)
        end
      else String c (normalize_ws r)
  end.

(** The text of [src/editor/include/editor.h]. *)
Definition editor_h_source : string :=
"#include <AppKit/AppKit.h>
#include <Cocoa/Cocoa.h>
#include <CoreGraphics/CoreGraphics.h>
#include <MetalKit/MetalKit.h>
#include <objc/runtime.h>

typedef void *Renderer;
typedef void *Editor;

#define ARENA_ALIGN (alignof(max_align_t))

Renderer renderer_create(id view, id device);
Renderer renderer_draw(Renderer renderer, id view);
void renderer_resize(Renderer renderer, CGSize new_size);
void renderer_handle_keydown(Renderer renderer, NSEvent *event);
void renderer_handle_scroll(Renderer renderer, CGFloat dx, CGFloat dy,
                            NSEventPhase phase);

// debugging functions
void renderer_insert_text(Renderer renderer, const char *text, size_t len);
size_t renderer_get_val(Renderer);".


(** ** Reading the header *)

Definition includes (h : header) : list string :=
  flat_map (fun i => match i with Include p => [p] | _ => [] end) h.

Definition typedefs (h : header) : list (string * ctype) :=
  flat_map (fun i => match i with Typedef t n => [(n, t)] | _ => [] end) h.

Definition macros (h : header) : list (string * cexpr) :=
  flat_map (fun i => match i with Define n b => [(n, b)] | _ => [] end) h.

Definition protos (h : header) : list proto :=
  flat_map (fun i => match i with Decl f => [f] | _ => [] end) h.

(** What the header itself declares: everything but the [#include]
    directives, which name other headers, and the comments. *)
Definition is_declaration (i : item) : bool :=
  match i with
  | Include _ | Comment _ => false
  | Typedef _ _ | Define _ _ | Decl _ => true
  end.

Definition declarations (h : header) : header := filter is_declaration h.

(** The part of a header before, and after, the first comment [c]. *)
Fixpoint before_comment (c : string) (h : header) : header :=
  match h with
  | [] => []
  | Comment c' :: r =>
      if String.eqb c' c then [] else Comment c' :: before_comment c r
  | i :: r => i :: before_comment c r
  end.

Fixpoint after_comment (c : string) (h : header) : header :=
  match h with
  | [] => []
  | Comment c' :: r => if String.eqb c' c then r else after_comment c r
  | _ :: r => after_comment c r
  end.

(** The prototypes under [// debugging functions] are the debug entry
    points; the prototypes above it are the operational ones. *)
Definition operational (h : header) : list proto :=
  protos (before_comment debug_marker h).

Definition debugging (h : header) : list proto :=
  protos (after_comment debug_marker h).

Definition lookup_proto (n : string) (h : header) : option proto :=
  find (fun f => String.eqb (f_name f) n) (protos h).

(** ** Types in signatures *)

Definition nullability_eqb (a b : nullability) : bool :=
  match a, b with
  | Nullable, Nullable | Nonnull, Nonnull
  | NullUnspecified, NullUnspecified => true
  | _, _ => false
  end.

Fixpoint ctype_eqb (s t : ctype) : bool :=
  match s, t with
  | TVoid, TVoid | TChar, TChar => true
  | TNamed m, TNamed n => String.eqb m n
  | TConst u, TConst v | TPtr u, TPtr v => ctype_eqb u v
  | TAnnot a u, TAnnot b v => nullability_eqb a b && ctype_eqb u v
  | _, _ => false
  end.

(** The type names a type is built from. *)
Fixpoint type_names (t : ctype) : list string :=
  match t with
  | TNamed n => [n]
  | TConst u | TPtr u | TAnnot _ u => type_names u
  | TVoid | TChar => []
  end.

Definition param_types (f : proto) : list ctype := map p_type (f_params f).

Definition sig_types (f : proto) : list ctype := f_ret f :: param_types f.

Definition sig_names (f : proto) : list string :=
  flat_map type_names (sig_types f).

Definition mentions (n : string) (f : proto) : bool :=
  existsb (String.eqb n) (sig_names f).

Definition takes (t : ctype) (f : proto) : bool :=
  existsb (ctype_eqb t) (param_types f).

Definition returns (t : ctype) (f : proto) : bool := ctype_eqb (f_ret f) t.

Definition first_param (f : proto) : option ctype := hd_error (param_types f).

(** A function creates a [t] when it returns one without being given one;
    it operates on an existing [t] when its first parameter is one. *)
Definition creates (t : ctype) (f : proto) : bool :=
  returns t f && negb (takes t f).

Definition operates_on (t : ctype) (f : proto) : bool :=
  match first_param f with
  | Some u => ctype_eqb u t
  | None => false
  end.

(** ** Resolving the header's typedefs *)

Fixpoint subst_name (n : string) (d : ctype) (t : ctype) : ctype :=
  match t with
  | TNamed m => if String.eqb m n then d else t
  | TConst u => TConst (subst_name n d u)
  | TPtr u => TPtr (subst_name n d u)
  | TAnnot a u => TAnnot a (subst_name n d u)
  | TVoid | TChar => t
  end.

(** A typedef may use the names declared before it, so the names are
    replaced from the last typedef to the first. *)
Definition resolve (h : header) (t : ctype) : ctype :=
  fold_left (fun u nd => subst_name (fst nd) (snd nd) u) (rev (typedefs h)) t.

(** The handle types of a header: its typedefs of [void *]. *)
Definition is_handle (h : header) (t : ctype) : bool :=
  match t with
  | TNamed n => existsb (fun nd => String.eqb (fst nd) n
                                   && ctype_eqb (snd nd) (TPtr TVoid))
                        (typedefs h)
  | _ => false
  end.

(** ** The types the header takes from the platform

    Modelled from the spec: the declarations of [id], [CGSize], [CGFloat],
    [NSEvent], [NSEventPhase], [size_t] and [max_align_t] live in the
    included framework and C library headers, which are not part of the
    repository.  The spec describes them as: view and device objects
    (opaque host-framework references), a 2D size value, horizontal and
    vertical floating-point deltas, a key-event object, a scroll-phase
    enumeration, a size-typed value, and the platform's maximum-alignment
    scalar type. *)
Inductive tkind : Type :=
| KObject
| KSize2D
| KFloat
| KEnum
| KSizeT
| KMaxAlign.

Definition framework_kind (n : string) : option tkind :=
  if String.eqb n "id" then Some KObject
  else if String.eqb n "NSEvent" then Some KObject
  else if String.eqb n "CGSize" then Some KSize2D
  else if String.eqb n "CGFloat" then Some KFloat
  else if String.eqb n "NSEventPhase" then Some KEnum
  else if String.eqb n "size_t" then Some KSizeT
  else if String.eqb n "max_align_t" then Some KMaxAlign
  else None.

Definition type_kind (t : ctype) : option tkind :=
  match t with
  | TNamed n => framework_kind n
  | TPtr (TNamed n) =>
      match framework_kind n with
      | Some KObject => Some KObject
      | _ => None
      end
  | _ => None
  end.

(** ** Evaluating a macro on a platform *)

Record platform : Type := mkPlatform {
  alignof : ctype -> N;
  sizeof : ctype -> N
}.

Fixpoint eval (p : platform) (e : cexpr) : N :=
  match e with
  | ELit n => n
  | EAlignof t => alignof p t
  | ESizeof t => sizeof p t
  | EParen e' => eval p e'
  end.

Definition macro_body (n : string) (h : header) : option cexpr :=
  option_map snd (find (fun nb => String.eqb (fst nb) n) (macros h)).

Definition macro_value (p : platform) (n : string) (h : header) : option N :=
  option_map (eval p) (macro_body n h).

Definition max_align_t : ctype := TNamed "max_align_t".

(** The scalar types of C that the header's types can name: characters,
    pointers, and the platform's floating, enumerated and size types. *)
Fixpoint is_scalar (t : ctype) : bool :=
  match t with
  | TChar | TPtr _ => true
  | TNamed n =>
      match framework_kind n with
      | Some (KFloat | KEnum | KSizeT | KMaxAlign | KObject) => true
      | _ => false
      end
  | TConst u | TAnnot _ u => is_scalar u
  | TVoid => false
  end.

(** C11 7.19: the alignment of [max_align_t] is as great as that of every
    scalar type. *)
Definition conforming (p : platform) : Prop :=
  forall t, is_scalar t = true -> (alignof p t <= alignof p max_align_t)%N.

(** An LP64 platform with 16-byte [long double], as a concrete instance. *)
Fixpoint lp64_alignof (t : ctype) : N :=
  match t with
  | TVoid | TChar => 1
  | TPtr _ => 8
  | TConst u | TAnnot _ u => lp64_alignof u
  | TNamed n =>
      match framework_kind n with
      | Some KMaxAlign => 16
      | Some KEnum | Some KSizeT | Some KFloat | Some KObject
      | Some KSize2D => 8
      | None => 1
      end
  end.

Fixpoint lp64_sizeof (t : ctype) : N :=
  match t with
  | TVoid | TChar => 1
  | TPtr _ => 8
  | TConst u | TAnnot _ u => lp64_sizeof u
  | TNamed n =>
      match framework_kind n with
      | Some KMaxAlign | Some KSize2D => 16
      | Some KEnum | Some KSizeT | Some KFloat | Some KObject => 8
      | None => 1
      end
  end.

Definition lp64 : platform := mkPlatform lp64_alignof lp64_sizeof.

(** ** Status channels in a signature *)

Fixpoint annotated (t : ctype) : bool :=
  match t with
  | TAnnot _ _ => true
  | TConst u | TPtr u => annotated u
  | TVoid | TChar | TNamed _ => false
  end.

(** A pointee through which a callee can hand a result back: a scalar or
    a pointer that is not const.  [void] is opaque and an Objective-C
    object is passed by reference as an input; a named type the model
    does not know counts as writable. *)
Fixpoint writable (t : ctype) : bool :=
  match t with
  | TVoid | TConst _ => false
  | TChar | TPtr _ => true
  | TNamed n =>
      match framework_kind n with
      | Some KObject => false
      | _ => true
      end
  | TAnnot _ u => writable u
  end.

Fixpoint out_param_shape (t : ctype) : bool :=
  match t with
  | TPtr u => writable u
  | TConst u | TAnnot _ u => out_param_shape u
  | TVoid | TChar | TNamed _ => false
  end.

Definition is_out_param (h : header) (t : ctype) : bool :=
  out_param_shape (resolve h t).

(** A bare result: [void], one of the header's handles, or the size
    type, without wrapper or annotation. *)
Definition bare_result (h : header) (t : ctype) : bool :=
  match t with
  | TVoid => true
  | TNamed n => is_handle h t || String.eqb n "size_t"
  | _ => false
  end.

(** ** Names that announce the end of a lifetime *)

Fixpoint prefixb (s t : string) : bool :=
  match s, t with
  | EmptyString, _ => true
  | String a s', String b t' => Ascii.eqb a b && prefixb s' t'
  | String _ _, EmptyString => false
  end.

Fixpoint is_infix (s t : string) : bool :=
  prefixb s t
  || match t with
     | EmptyString => false
     | String _ t' => is_infix s t'
     end.

Definition lower_ascii (c : ascii) : ascii :=
  let n := nat_of_ascii c in
  if (Nat.leb 65 n && Nat.leb n 90)%bool then ascii_of_nat (n + 32) else c.

Fixpoint lower (s : string) : string :=
  match s with
  | EmptyString => EmptyString
  | String c r => String (lower_ascii c) (lower r)
  end.

Definition teardown_words : list string :=
  ["destroy"; "destruct"; "dtor"; "release"; "free"; "delete"; "dealloc";
   "dispose"; "close"; "deinit"; "teardown"; "shutdown"; "terminate";
   "finalize"; "drop"].

Definition is_teardown_name (n : string) : bool :=
  existsb (fun w => is_infix w (lower n)) teardown_words.

(** Every identifier the header introduces. *)
Definition declared_names (h : header) : list string :=
  flat_map (fun i => match i with
                     | Typedef _ n | Define n _ => [n]
                     | Decl f => [f_name f]
                     | Include _ | Comment _ => []
                     end) h.

(** ** Passing arguments (C11 6.5.2.2 and 6.5.16.1) *)

Inductive carg : Type :=
| ArgNull
| ArgOf (t : ctype).

Fixpoint unqual (t : ctype) : ctype :=
  match t with
  | TConst u | TAnnot _ u => unqual u
  | _ => t
  end.

Fixpoint is_const (t : ctype) : bool :=
  match t with
  | TConst _ => true
  | TAnnot _ u => is_const u
  | _ => false
  end.

Definition is_void (t : ctype) : bool :=
  match t with
  | TVoid => true
  | _ => false
  end.


(** Modelled from the spec: the view and device objects are opaque
    host-framework references.  Their type [id] is declared by the
    Objective-C runtime header, which is not part of the repository, as
    a pointer to the runtime's object structure. *)
Definition objc_object : ctype := TNamed "objc_object".

Definition platform_typedefs : list (string * ctype) :=
  [("id", TPtr objc_object)].

Definition expand (t : ctype) : ctype :=
  fold_left (fun u nd => subst_name (fst nd) (snd nd) u) platform_typedefs t.

(** The type a declared type stands for, once the header's and the
    platform's typedefs are replaced by their definitions. *)
Definition meaning (h : header) (t : ctype) : ctype := expand (resolve h t).

(** Types known to be object types: [void], characters, pointers, the
    runtime's object structure and the platform types the header names.
    Of a name the model does not know nothing is assumed: it may stand
    for a function type or for a const type. *)
Fixpoint object_type (t : ctype) : bool :=
  match t with
  | TVoid | TChar | TPtr _ => true
  | TConst u | TAnnot _ u => object_type u
  | TNamed n =>
      match framework_kind n with
      | Some _ => true
      | None => String.eqb n "objc_object"
      end
  end.

(** The arithmetic types: characters and the platform's floating,
    enumerated, size and maximum-alignment types. *)
Definition is_arith (t : ctype) : bool :=
  match t with
  | TChar => true
  | TNamed n =>
      match framework_kind n with
      | Some (KFloat | KEnum | KSizeT | KMaxAlign) => true
      | _ => false
      end
  | _ => false
  end.

Definition is_class (t : ctype) : bool :=
  match t with
  | TNamed n =>
      match framework_kind n with
      | Some KObject => true
      | _ => false
      end
  | _ => false
  end.

(** Objective-C converts between [id] and a pointer to any class. *)
Definition objc_convertible (d e : ctype) : bool :=
  (ctype_eqb d objc_object && is_class e)
  || (is_class d && ctype_eqb e objc_object).

(** The pointees [d] of a parameter and [e] of an argument agree when
    they are the same type, when one of them is [void] and the other an
    object type, or by the Objective-C rule. *)
Definition pointee_ok (d e : ctype) : bool :=
  ctype_eqb (unqual d) (unqual e)
  || (is_void (unqual d) && object_type e)
  || (is_void (unqual e) && object_type d)
  || objc_convertible (unqual d) (unqual e).

(** An argument may be passed for a parameter of pointer type when it is
    the null pointer, or a pointer whose pointee agrees with the
    parameter's and no const qualifier is lost.  An arithmetic parameter
    takes any arithmetic argument, by the usual conversions; any other
    parameter asks for its own type. *)
Definition accepts (h : header) (dst : ctype) (a : carg) : bool :=
  match unqual (meaning h dst), a with
  | TPtr d, ArgNull => true
  | TPtr d, ArgOf s =>
      match unqual (meaning h s) with
      | TPtr e => pointee_ok d e && implb (is_const e) (is_const d)
      | _ => false
      end
  | d, ArgOf s =>
      if is_arith d then is_arith (unqual (meaning h s))
      else ctype_eqb d (unqual (meaning h s))
  | _, ArgNull => false
  end.

Fixpoint call_ok (h : header) (ps : list ctype) (args : list carg) : bool :=
  match ps, args with
  | [], [] => true
  | p :: ps', a :: args' => accepts h p a && call_ok h ps' args'
  | _, _ => false
  end.

(** Arguments that carry the null pointer or a pointer to data that is
    not const. *)
Definition pointer_arg (h : header) (a : carg) : bool :=
  match a with
  | ArgNull => true
  | ArgOf s =>
      match unqual (meaning h s) with
      | TPtr e => negb (is_const e) && object_type e
      | _ => false
      end
  end.

(** [swap_handles h ps args args']: [args'] is [args] with the arguments
    at some handle positions of [ps] replaced by arbitrary pointers. *)
Inductive swap_handles (h : header) :
  list ctype -> list carg -> list carg -> Prop :=
| sh_nil : swap_handles h [] [] []
| sh_keep p ps a args args' :
    swap_handles h ps args args' ->
    swap_handles h (p :: ps) (a :: args) (a :: args')
| sh_swap p ps a b args args' :
    resolve h p = TPtr TVoid ->
    pointer_arg h b = true ->
    swap_handles h ps args args' ->
    swap_handles h (p :: ps) (a :: args) (b :: args').

(** ** The roles the interface gives its functions and parameters *)

(** The spec's data model: a [Renderer] is inspected by
    [renderer_get_val] and mutated by the other functions that are
    handed one. *)
Definition mutators (h : header) : list proto :=
  filter (fun f => operates_on Renderer f
                   && negb (String.eqb (f_name f) "renderer_get_val"))
         (protos h).

Inductive pclass : Type :=
| CHandle
| CFramework (k : tkind)
| CText
| COther.

Definition classify (h : header) (t : ctype) : pclass :=
  if is_handle h t then CHandle
  else match type_kind t with
       | Some k => CFramework k
       | None =>
           match t with
           | TPtr (TConst TChar) => CText
           | _ => COther
           end
       end.

(** ** Declaration before use

    A type name is usable where it is either provided by the included
    headers ([env]) or introduced by an earlier typedef of this header.
    Macro bodies are not looked at where they are defined. *)
Definition known (env : list string) (t : ctype) : bool :=
  forallb (fun n => existsb (String.eqb n) env) (type_names t).

Fixpoint scoped (env : list string) (h : header) : bool :=
  match h with
  | [] => true
  | Typedef t n :: r => known env t && scoped (n :: env) r
  | Decl f :: r => forallb (known env) (sig_types f) && scoped env r
  | (Include _ | Define _ _ | Comment _) :: r => scoped env r
  end.

(** The type names the header uses without declaring them. *)
Definition platform_names : list string :=
  ["id"; "CGSize"; "NSEvent"; "CGFloat"; "NSEventPhase"; "size_t"].

(** ** Including the header more than once

    The header has no include guard, so a translation unit that reaches
    it [n] times sees its items [n] times.  C11 lets a typedef, a macro
    or a function be declared again when the new declaration says the
    same as the old one (6.7, 6.10.3, 6.7.6.3). *)
Fixpoint cexpr_eqb (a b : cexpr) : bool :=
  match a, b with
  | ELit m, ELit n => N.eqb m n
  | EAlignof s, EAlignof t | ESizeof s, ESizeof t => ctype_eqb s t
  | EParen e, EParen e' => cexpr_eqb e e'
  | _, _ => false
  end.

Fixpoint ctypes_eqb (l m : list ctype) : bool :=
  match l, m with
  | [], [] => true
  | s :: l', t :: m' => ctype_eqb s t && ctypes_eqb l' m'
  | _, _ => false
  end.

Definition item_name (i : item) : option string :=
  match i with
  | Typedef _ n | Define n _ => Some n
  | Decl f => Some (f_name f)
  | Include _ | Comment _ => None
  end.

Definition same_decl (i j : item) : bool :=
  match i, j with
  | Typedef s _, Typedef t _ => ctype_eqb s t
  | Define _ a, Define _ b => cexpr_eqb a b
  | Decl f, Decl g =>
      ctype_eqb (f_ret f) (f_ret g)
      && ctypes_eqb (param_types f) (param_types g)
  | _, _ => false
  end.

(** Two items clash when they give one name two different meanings. *)
Definition clash (i j : item) : bool :=
  match item_name i, item_name j with
  | Some m, Some n => String.eqb m n && negb (same_decl i j)
  | _, _ => false
  end.

Definition coherent (h : header) : bool :=
  forallb (fun i => forallb (fun j => negb (clash i j)) h) h.

Definition include_times (n : nat) (h : header) : header :=
  concat (repeat h n).

(** ** Calling the interface in sequence

    A call that takes a handle needs one that an earlier call returned;
    a function named as a teardown would take the handle away again. *)
Fixpoint handles_available (have : bool) (calls : list proto) : bool :=
  match calls with
  | [] => true
  | f :: r =>
      (negb (takes Renderer f) || have)
      && handles_available
           ((have && negb (is_teardown_name (f_name f)))
            || returns Renderer f) r
  end.

Definition declared_in (h : header) (f : proto) : Prop := In (Decl f) h.

(** * Properties *)

(** ** The model is the header *)

Lemma editor_h_prints_as_source :
  normalize_ws (print_header editor_h) = normalize_ws editor_h_source.
Proof. vm_compute. reflexivity. Qed.

(** ** Basic facts about the readers *)

Lemma nullability_eqb_eq a b : nullability_eqb a b = true <-> a = b.
Proof. destruct a, b; simpl; split; congruence. Qed.

Lemma ctype_eqb_eq s t : ctype_eqb s t = true <-> s = t.
Proof.
  revert t; induction s as [| |m|u IH|u IH|a u IH]; intros [| |n|v|v|b v];
    simpl; try (split; congruence).
  - rewrite String.eqb_eq. split; congruence.
  - rewrite IH. split; congruence.
  - rewrite IH. split; congruence.
  - rewrite andb_true_iff, nullability_eqb_eq, IH.
    split; [intros [-> ->]; reflexivity | intros H; inversion H; auto].
Qed.

Lemma ctype_eqb_refl t : ctype_eqb t t = true.
Proof. apply ctype_eqb_eq; reflexivity. Qed.

Lemma protos_app h1 h2 : protos (h1 ++ h2)%list = (protos h1 ++ protos h2)%list.
Proof. unfold protos. apply flat_map_app. Qed.

Lemma comment_split c h :
  In (Comment c) h ->
  h = (before_comment c h ++ Comment c :: after_comment c h)%list.
Proof.
  induction h as [|i r IH]; simpl; [tauto|].
  intros [-> | Hin].
  - rewrite String.eqb_refl. reflexivity.
  - destruct i; simpl; try (f_equal; auto).
    destruct (String.eqb text c) eqn:E.
    + apply String.eqb_eq in E. subst. reflexivity.
    + simpl. f_equal. auto.
Qed.

(** The operational and the debug entry points partition the prototypes,
    whatever the header. *)
Lemma protos_split h : protos h = (operational h ++ debugging h)%list.
Proof.
  unfold operational, debugging.
  induction h as [|i r IH]; simpl; [reflexivity|].
  destruct i as [p|t n|n b|c|f]; simpl; auto.
  - destruct (String.eqb c debug_marker); simpl; auto.
  - f_equal. exact IH.
Qed.

Lemma In_protos f h : In f (protos h) <-> In (Decl f) h.
Proof.
  unfold protos. rewrite in_flat_map. split.
  - intros [i [Hi Hf]]. destruct i; simpl in Hf; try tauto.
    destruct Hf as [-> | []]. exact Hi.
  - intros H. exists (Decl f). simpl. auto.
Qed.

Lemma mentions_In n f : mentions n f = true <-> In n (sig_names f).
Proof.
  unfold mentions. rewrite existsb_exists. split.
  - intros [x [Hx E]]. apply String.eqb_eq in E. subst. exact Hx.
  - intros H. exists n. split; [exact H | apply String.eqb_refl].
Qed.

Lemma takes_In t f : takes t f = true <-> In t (param_types f).
Proof.
  unfold takes. rewrite existsb_exists. split.
  - intros [x [Hx E]]. apply ctype_eqb_eq in E. subst. exact Hx.
  - intros H. exists t. split; [exact H | apply ctype_eqb_refl].
Qed.

Lemma lookup_proto_In n h f :
  lookup_proto n h = Some f -> In (Decl f) h /\ f_name f = n.
Proof.
  unfold lookup_proto. intros H. apply find_some in H.
  destruct H as [Hin E]. apply String.eqb_eq in E.
  split; [apply In_protos; exact Hin | exact E].
Qed.

Lemma declarations_count h :
  length (declarations h)
  = length (typedefs h) + length (macros h) + length (protos h).
Proof.
  unfold declarations, typedefs, macros, protos.
  induction h as [|i r IH]; simpl; [reflexivity|].
  destruct i; simpl; rewrite ?IH; lia.
Qed.

Lemma prefixb_spec s t : prefixb s t = true <-> exists b, t = s ++ b.
Proof.
  revert t; induction s as [|c s IH]; intros t; simpl.
  - split; [intros _; exists t; reflexivity | reflexivity].
  - destruct t as [|d t]; simpl.
    + split; [discriminate | intros [b Hb]; discriminate].
    + rewrite andb_true_iff, Ascii.eqb_eq, IH. split.
      * intros [-> [b ->]]. exists b. reflexivity.
      * intros [b Hb]. inversion Hb. split; [reflexivity | exists b; reflexivity].
Qed.

(** [is_infix] is the substring test. *)
Lemma is_infix_spec s t :
  is_infix s t = true <-> exists a b, t = a ++ s ++ b.
Proof.
  induction t as [|c t IH]; simpl.
  - rewrite orb_false_r, prefixb_spec. split.
    + intros [b Hb]. exists "", b. exact Hb.
    + intros [a [b Hab]]. destruct a; [exists b; exact Hab | discriminate].
  - rewrite orb_true_iff, prefixb_spec, IH. split.
    + intros [[b Hb] | [a [b Hab]]].
      * exists "", b. exact Hb.
      * exists (String c a), b. simpl. rewrite Hab. reflexivity.
    + intros [a [b Hab]]. destruct a as [|d a]; simpl in Hab.
      * left. exists b. exact Hab.
      * right. inversion Hab. exists a, b. reflexivity.
Qed.

Lemma resolve_ptr h t : resolve h (TPtr t) = TPtr (resolve h t).
Proof.
  unfold resolve. generalize (rev (typedefs h)) as l. intros l. revert t.
  induction l as [|nd l IH]; intros t; simpl; [reflexivity | apply IH].
Qed.



Lemma eval_paren p e : eval p (EParen e) = eval p e.
Proof. reflexivity. Qed.

Lemma expand_ptr t : expand (TPtr t) = TPtr (expand t).
Proof. reflexivity. Qed.

Lemma meaning_ptr h t : meaning h (TPtr t) = TPtr (meaning h t).
Proof. unfold meaning. rewrite resolve_ptr. apply expand_ptr. Qed.




Lemma is_const_subst_name_true n d t :
  is_const t = true -> is_const (subst_name n d t) = true.
Proof.
  induction t as [| |m|u IH|u IH|a u IH]; simpl; intros Ht;
    try discriminate; [reflexivity | apply IH; exact Ht].
Qed.

Lemma is_const_resolve_true h t :
  is_const t = true -> is_const (resolve h t) = true.
Proof.
  unfold resolve. generalize (rev (typedefs h)) as l. intros l. revert t.
  induction l as [|nd l IH]; intros t Ht; simpl; [exact Ht|].
  apply IH, is_const_subst_name_true, Ht.
Qed.

Lemma is_const_meaning_true h t :
  is_const t = true -> is_const (meaning h t) = true.
Proof.
  intros Ht. unfold meaning, expand. simpl.
  apply is_const_subst_name_true, is_const_resolve_true, Ht.
Qed.

(** A pointer to const data is accepted only by a parameter that is
    itself a pointer to const, in any header. *)
Lemma accepts_const_pointer h p t :
  is_const t = true ->
  accepts h p (ArgOf (TPtr t)) = true ->
  exists d, unqual (meaning h p) = TPtr d /\ is_const d = true.
Proof.
  intros Ht. unfold accepts. rewrite meaning_ptr. cbn [unqual].
  pose proof (is_const_meaning_true h t Ht) as He.
  destruct (unqual (meaning h p)) as [| |m|u|d|a u]; try discriminate.
  - destruct (is_arith (TNamed m)); discriminate.
  - rewrite He, andb_true_iff. simpl. intros [_ Hd].
    exists d. split; [reflexivity | exact Hd].
Qed.

Lemma swap_handles_length h ps args args' :
  swap_handles h ps args args' -> length args' = length args.
Proof. induction 1; simpl; congruence. Qed.

Lemma In_editor_h_protos f :
  In (Decl f) editor_h ->
  f = renderer_create \/ f = renderer_draw \/ f = renderer_resize
  \/ f = renderer_handle_keydown \/ f = renderer_handle_scroll
  \/ f = renderer_insert_text \/ f = renderer_get_val.
Proof.
  simpl. intros H.
  repeat (destruct H as [H|H]; [try discriminate; inversion H; tauto|]).
  contradiction.
Qed.

(** On a conforming platform the constant bounds the alignment of every
    scalar type. *)
Lemma arena_align_bounds_scalars p t :
  conforming p -> is_scalar t = true ->
  exists v, macro_value p "ARENA_ALIGN" editor_h = Some v
            /\ (alignof p t <= v)%N.
Proof.
  intros Hp Ht. exists (alignof p max_align_t). split; [reflexivity|].
  apply Hp. exact Ht.
Qed.

Lemma lp64_conforming : conforming lp64.
Proof.
  intros t. induction t as [| |n|u IH|u IH|a u IH]; simpl; intros H;
    try discriminate; try (apply IH; exact H);
    try (vm_compute; discriminate).
  change (alignof lp64 max_align_t) with 16%N.
  destruct (framework_kind n) as [[]|]; try discriminate;
    vm_compute; discriminate.
Qed.

(** The text parameter of [renderer_insert_text] is a pointer to const
    characters and is followed by a length of the size type. *)
Lemma insert_text_parameters :
  map (classify editor_h) (param_types renderer_insert_text)
  = [CHandle; CText; CFramework KSizeT]
  /\ map p_name (f_params renderer_insert_text)
     = [Some "renderer"; Some "text"; Some "len"].
Proof. split; reflexivity. Qed.

(** * The claims *)

(** C1: the header declares exactly seven functions on a Renderer handle
    (five operational entry points above the debugging comment, two
    debug entry points below it), the two opaque handle types Renderer
    and Editor, and the one constant ARENA_ALIGN; its declarations are
    these ten and nothing else (the remaining items are the five
    [#include] directives and the one comment). *)
Theorem C1_declared_surface :
  map f_name (operational editor_h)
  = ["renderer_create"; "renderer_draw"; "renderer_resize";
     "renderer_handle_keydown"; "renderer_handle_scroll"]
  /\ map f_name (debugging editor_h)
     = ["renderer_insert_text"; "renderer_get_val"]
  /\ protos editor_h = (operational editor_h ++ debugging editor_h)%list
  /\ length (protos editor_h) = 7
  /\ Forall (fun f => creates Renderer f = true
                      \/ operates_on Renderer f = true) (protos editor_h)
  /\ typedefs editor_h = [("Renderer", TPtr TVoid); ("Editor", TPtr TVoid)]
  /\ map fst (macros editor_h) = ["ARENA_ALIGN"]
  /\ length (declarations editor_h) = 7 + 2 + 1
  /\ length editor_h
     = length (includes editor_h) + 1 + length (declarations editor_h)
  /\ declared_names editor_h
     = (map fst (typedefs editor_h) ++ map fst (macros editor_h)
        ++ map f_name (protos editor_h))%list
  /\ NoDup (declared_names editor_h).
Proof.
  split; [reflexivity|]. split; [reflexivity|].
  split; [apply protos_split|]. split; [reflexivity|].
  split; [repeat (apply Forall_cons;
            [first [left; reflexivity | right; reflexivity]|]);
          apply Forall_nil|].
  split; [reflexivity|]. split; [reflexivity|].
  split; [rewrite declarations_count; reflexivity|].
  split; [reflexivity|]. split; [reflexivity|].
  repeat constructor; simpl; intros H;
    repeat (destruct H as [H|H]; [discriminate|]); exact H.
Qed.

(** C2: renderer_draw takes an existing Renderer and a view object and
    returns a Renderer handle; the other mutating operations
    (renderer_resize, renderer_handle_keydown, renderer_handle_scroll,
    renderer_insert_text) return void. *)
Theorem C2_draw_returns_renderer :
  lookup_proto "renderer_draw" editor_h = Some renderer_draw
  /\ map (classify editor_h) (param_types renderer_draw)
     = [CHandle; CFramework KObject]
  /\ param_types renderer_draw = [Renderer; TNamed "id"]
  /\ f_ret renderer_draw = Renderer
  /\ map f_name (mutators editor_h)
     = ["renderer_draw"; "renderer_resize"; "renderer_handle_keydown";
        "renderer_handle_scroll"; "renderer_insert_text"]
  /\ Forall (fun f => f = renderer_draw \/ f_ret f = TVoid)
            (mutators editor_h)
  /\ map f_ret (filter (fun f => negb (String.eqb (f_name f) "renderer_draw"))
                       (mutators editor_h))
     = [TVoid; TVoid; TVoid; TVoid].
Proof.
  repeat (split; [reflexivity|]).
  split; [|reflexivity].
  repeat (apply Forall_cons; [first [left; reflexivity | right; reflexivity]|]).
  apply Forall_nil.
Qed.

(** C3: no signature carries an error or result channel, a nullability
    convention or a status out-parameter: renderer_create and
    renderer_draw return a bare Renderer, renderer_get_val a bare size
    value, and every other function returns void. *)
Theorem C3_no_status_channel :
  Forall (fun f =>
            bare_result editor_h (f_ret f) = true
            /\ Forall (fun t => is_out_param editor_h t = false)
                      (param_types f)
            /\ Forall (fun t => annotated t = false) (sig_types f))
         (protos editor_h)
  /\ option_map f_ret (lookup_proto "renderer_create" editor_h)
     = Some Renderer
  /\ option_map f_ret (lookup_proto "renderer_draw" editor_h)
     = Some Renderer
  /\ option_map f_ret (lookup_proto "renderer_get_val" editor_h)
     = Some (TNamed "size_t")
  /\ type_kind (TNamed "size_t") = Some KSizeT
  /\ map (fun f => (f_name f, f_ret f))
         (filter (fun f => negb (existsb (String.eqb (f_name f))
                                   ["renderer_create"; "renderer_draw";
                                    "renderer_get_val"]))
                 (protos editor_h))
     = [("renderer_resize", TVoid); ("renderer_handle_keydown", TVoid);
        ("renderer_handle_scroll", TVoid); ("renderer_insert_text", TVoid)].
Proof.
  split; [|repeat split; reflexivity].
  repeat (apply Forall_cons;
          [split; [reflexivity|];
           split; repeat (apply Forall_cons; [reflexivity|]);
           apply Forall_nil|]).
  apply Forall_nil.
Qed.

(** C4: renderer_handle_scroll takes exactly four inputs, in order a
    Renderer handle, a horizontal floating-point delta, a vertical
    floating-point delta and a scroll-phase enumeration, and returns
    void. *)
Theorem C4_scroll_signature :
  lookup_proto "renderer_handle_scroll" editor_h
  = Some renderer_handle_scroll
  /\ length (f_params renderer_handle_scroll) = 4
  /\ map (classify editor_h) (param_types renderer_handle_scroll)
     = [CHandle; CFramework KFloat; CFramework KFloat; CFramework KEnum]
  /\ param_types renderer_handle_scroll
     = [Renderer; TNamed "CGFloat"; TNamed "CGFloat"; TNamed "NSEventPhase"]
  /\ map p_name (f_params renderer_handle_scroll)
     = [Some "renderer"; Some "dx"; Some "dy"; Some "phase"]
  /\ f_ret renderer_handle_scroll = TVoid.
Proof. repeat split; reflexivity. Qed.

(** C5: on every platform the constant ARENA_ALIGN has the value of
    alignof(max_align_t), the alignment of the platform's
    maximum-alignment type. *)
Theorem C5_arena_align (p : platform) :
  macro_body "ARENA_ALIGN" editor_h
  = Some (EParen (EAlignof max_align_t))
  /\ macro_value p "ARENA_ALIGN" editor_h = Some (alignof p max_align_t)
  /\ type_kind max_align_t = Some KMaxAlign.
Proof. repeat split; reflexivity. Qed.

(** C6: the Editor handle type is declared, and no declared function
    takes an Editor, returns one, or names the type anywhere in its
    signature. *)
Theorem C6_editor_unreferenced (f : proto) (Hf : In (Decl f) editor_h) :
  In "Editor" (map fst (typedefs editor_h))
  /\ ~ In "Editor" (sig_names f)
  /\ takes Editor f = false
  /\ returns Editor f = false.
Proof.
  split; [simpl; auto|].
  assert (Hm : mentions "Editor" f = false).
  { apply In_editor_h_protos in Hf.
    repeat (destruct Hf as [-> | Hf]; [reflexivity|]).
    subst f. reflexivity. }
  split.
  - intros Hin. apply mentions_In in Hin. congruence.
  - apply In_editor_h_protos in Hf.
    repeat (destruct Hf as [-> | Hf]; [split; reflexivity|]).
    subst f. split; reflexivity.
Qed.

Lemma C6_editor_unreferenced_witness :
  In (Decl renderer_draw) editor_h
  /\ In "Editor" (map fst (typedefs editor_h))
  /\ ~ In "Editor" (sig_names renderer_draw)
  /\ takes Editor renderer_draw = false
  /\ returns Editor renderer_draw = false.
Proof.
  assert (H : In (Decl renderer_draw) editor_h) by (simpl; tauto).
  split; [exact H | exact (C6_editor_unreferenced renderer_draw H)].
Defined.

(** C7: no declared function is a destructor, destroy or release
    function: every declared function either creates a Renderer or
    operates on an existing one, and none is named as ending a
    lifetime; no other declared name is either. *)
Theorem C7_no_teardown (f : proto) (Hf : In (Decl f) editor_h) :
  is_teardown_name (f_name f) = false
  /\ xorb (creates Renderer f) (operates_on Renderer f) = true
  /\ Forall (fun n => is_teardown_name n = false) (declared_names editor_h)
  /\ filter (creates Renderer) (protos editor_h) = [renderer_create].
Proof.
  apply In_editor_h_protos in Hf.
  repeat (destruct Hf as [-> | Hf];
          [repeat split; try reflexivity;
           repeat (apply Forall_cons; [reflexivity|]); apply Forall_nil|]).
  subst f. repeat split; try reflexivity.
  repeat (apply Forall_cons; [reflexivity|]); apply Forall_nil.
Qed.

Lemma C7_no_teardown_witness :
  In (Decl renderer_resize) editor_h
  /\ is_teardown_name (f_name renderer_resize) = false
  /\ xorb (creates Renderer renderer_resize)
          (operates_on Renderer renderer_resize) = true
  /\ Forall (fun n => is_teardown_name n = false) (declared_names editor_h)
  /\ filter (creates Renderer) (protos editor_h) = [renderer_create].
Proof.
  assert (H : In (Decl renderer_resize) editor_h) by (simpl; tauto).
  split; [exact H | exact (C7_no_teardown renderer_resize H)].
Defined.




(** * Further properties of the declared surface *)

Lemma mem_In n env : existsb (String.eqb n) env = true <-> In n env.
Proof.
  rewrite existsb_exists. split.
  - intros [x [Hx E]]. apply String.eqb_eq in E. subst. exact Hx.
  - intros H. exists n. split; [exact H | apply String.eqb_refl].
Qed.

Lemma scoped_editor_h (env : list string) :
  scoped env editor_h = true <-> incl platform_names env.
Proof.
  unfold editor_h, renderer_create, renderer_draw, renderer_resize,
    renderer_handle_keydown, renderer_handle_scroll, renderer_insert_text,
    renderer_get_val, Renderer, named, unnamed.
  cbn -[String.eqb existsb].
  rewrite !andb_true_iff, !mem_In. unfold incl, platform_names. split.
  - intros H a Ha. simpl in Ha, H.
    repeat match goal with
           | C : _ /\ _ |- _ => destruct C
           end.
    repeat (destruct Ha as [<- | Ha];
            [match goal with
             | D : _ \/ _ \/ In ?x env |- In ?x env =>
                 destruct D as [E | [E | E]];
                 [discriminate | discriminate | exact E]
             end|]).
    contradiction.
  - intros H.
    repeat split;
      first [reflexivity | simpl; tauto
            | simpl; right; right; apply H; simpl; tauto].
Qed.

(** Every type name the header uses is declared before its use exactly
    in the environments that provide the six type names it takes from
    the included headers; its own typedefs come before the prototypes
    that use them. *)
Theorem scoped_iff_platform_names (env : list string) :
  scoped env editor_h = true <-> incl platform_names env.
Proof. exact (scoped_editor_h env). Qed.

Lemma scoped_iff_platform_names_witness :
  incl platform_names ("BOOL" :: platform_names)
  /\ scoped ("BOOL" :: platform_names) editor_h = true.
Proof.
  assert (H : incl platform_names ("BOOL" :: platform_names))
    by (apply incl_tl, incl_refl).
  split; [exact H|].
  exact (proj2 (scoped_iff_platform_names ("BOOL" :: platform_names)) H).
Defined.

(** ** Repeated inclusion *)

Lemma known_mono env env' t :
  incl env env' -> known env t = true -> known env' t = true.
Proof.
  unfold known. rewrite !forallb_forall. intros Hi H n Hn.
  apply mem_In, Hi, mem_In, H, Hn.
Qed.

Lemma scoped_mono h : forall env env',
  incl env env' -> scoped env h = true -> scoped env' h = true.
Proof.
  induction h as [|i r IH]; intros env env' Hi; cbn [scoped];
    [reflexivity|].
  destruct i as [p|t n|n b|c|f]; try (apply IH; exact Hi).
  - rewrite !andb_true_iff. intros [Ht Hr]. split.
    + exact (known_mono _ _ _ Hi Ht).
    + apply (IH (n :: env)); [|exact Hr].
      intros x [<- | Hx]; [left; reflexivity | right; apply Hi, Hx].
  - rewrite !andb_true_iff. intros [Hf Hr]. split.
    + rewrite forallb_forall in Hf. rewrite forallb_forall. intros t Ht.
      exact (known_mono _ _ _ Hi (Hf t Ht)).
    + exact (IH _ _ Hi Hr).
Qed.

(** The second part of a header is read with the typedef names of the
    first part added to the environment. *)
Lemma scoped_app h1 : forall env h2,
  scoped env (h1 ++ h2)%list
  = scoped env h1
    && scoped (rev (map fst (typedefs h1)) ++ env)%list h2.
Proof.
  induction h1 as [|i r IH]; intros env h2; [reflexivity|].
  destruct i as [p|t n|n b|c|f]; cbn [app scoped]; try apply IH.
  - rewrite IH, <- andb_assoc. simpl. rewrite <- app_assoc. reflexivity.
  - rewrite IH, <- andb_assoc. reflexivity.
Qed.

Lemma scoped_include_times h n : forall env,
  scoped env h = true -> scoped env (include_times n h) = true.
Proof.
  unfold include_times.
  induction n as [|n IH]; intros env H; simpl; [reflexivity|].
  rewrite scoped_app, H. simpl. apply IH.
  apply (scoped_mono h env); [|exact H].
  intros x Hx. apply in_or_app. right. exact Hx.
Qed.

Lemma In_include_times n h i : In i (include_times n h) -> In i h.
Proof.
  unfold include_times. induction n as [|n IH]; simpl; [tauto|].
  intros H. apply in_app_or in H. destruct H as [H|H]; [exact H | auto].
Qed.

Lemma coherent_spec h :
  coherent h = true
  <-> forall i j, In i h -> In j h -> clash i j = false.
Proof.
  unfold coherent. rewrite forallb_forall. split.
  - intros H i j Hi Hj. specialize (H i Hi). rewrite forallb_forall in H.
    apply negb_true_iff. exact (H j Hj).
  - intros H i Hi. rewrite forallb_forall. intros j Hj.
    apply negb_true_iff. exact (H i j Hi Hj).
Qed.

Lemma coherent_include_times n h :
  coherent h = true -> coherent (include_times n h) = true.
Proof.
  rewrite !coherent_spec. intros H i j Hi Hj.
  apply H; eapply In_include_times; eassumption.
Qed.

(** Without an include guard the header may be reached any number of
    times: in every environment that provides the platform's type names
    the repeated text is still declared before use, and no name is given
    two meanings. *)
Theorem repeated_inclusion_harmless (n : nat) (env : list string)
  (Henv : incl platform_names env) :
  scoped env (include_times n editor_h) = true
  /\ coherent (include_times n editor_h) = true.
Proof.
  split.
  - apply scoped_include_times, scoped_editor_h, Henv.
  - apply coherent_include_times. vm_compute. reflexivity.
Qed.

Lemma repeated_inclusion_harmless_witness :
  incl platform_names platform_names
  /\ scoped platform_names (include_times 3 editor_h) = true
  /\ coherent (include_times 3 editor_h) = true.
Proof.
  split; [apply incl_refl|].
  exact (repeated_inclusion_harmless 3 platform_names
           (incl_refl platform_names)).
Defined.

(** A second declaration of a name with another meaning is what
    [coherent] rules out. *)
Example coherent_detects_clash :
  coherent (editor_h ++ [Typedef (TPtr TChar) "Renderer"])%list = false
  /\ scoped platform_names
       (Decl renderer_get_val :: Typedef (TPtr TVoid) "Renderer" :: nil)
     = false.
Proof. split; vm_compute; reflexivity. Qed.

(** ** Names and parameter positions *)

(** Every function the header declares lives under the [renderer_]
    prefix, and its name is more than the prefix. *)
Theorem function_names_prefixed (f : proto) (Hf : declared_in editor_h f) :
  exists rest, f_name f = "renderer_" ++ rest /\ rest <> "".
Proof.
  apply In_editor_h_protos in Hf.
  repeat (destruct Hf as [-> | Hf];
          [eexists; split; [reflexivity | discriminate]|]).
  subst f. eexists; split; [reflexivity | discriminate].
Qed.

Lemma function_names_prefixed_witness :
  declared_in editor_h renderer_handle_keydown
  /\ exists rest, f_name renderer_handle_keydown = "renderer_" ++ rest
                  /\ rest <> "".
Proof.
  assert (H : declared_in editor_h renderer_handle_keydown)
    by (unfold declared_in; simpl; tauto).
  split; [exact H | exact (function_names_prefixed _ H)].
Defined.

(** The only untyped pointer a declared function takes is its handle:
    a parameter whose type resolves to [void *] is the first parameter
    and is written [Renderer]. *)
Theorem handle_is_first_parameter
  (f : proto) (k : nat) (t : ctype)
  (Hf : declared_in editor_h f)
  (Hk : nth_error (param_types f) k = Some t)
  (Ht : unqual (resolve editor_h t) = TPtr TVoid) :
  k = 0 /\ t = Renderer.
Proof.
  apply In_editor_h_protos in Hf.
  repeat (destruct Hf as [-> | Hf];
    [destruct k as [|[|[|[|k]]]]; simpl in Hk;
     try (destruct k; discriminate); try discriminate;
     inversion Hk; subst t;
     first [split; reflexivity | vm_compute in Ht; discriminate]|]).
  subst f.
  destruct k as [|[|k]]; simpl in Hk;
    try (destruct k; discriminate); try discriminate.
  inversion Hk; subst t. split; reflexivity.
Qed.

Lemma handle_is_first_parameter_witness :
  declared_in editor_h renderer_draw
  /\ nth_error (param_types renderer_draw) 0 = Some Renderer
  /\ unqual (resolve editor_h Renderer) = TPtr TVoid
  /\ 0 = 0 /\ Renderer = Renderer.
Proof.
  assert (H : declared_in editor_h renderer_draw)
    by (unfold declared_in; simpl; tauto).
  split; [exact H|]. split; [reflexivity|]. split; [reflexivity|].
  exact (handle_is_first_parameter renderer_draw 0 Renderer H
           eq_refl eq_refl).
Defined.

(** ** Sequences of calls *)

(** A caller that holds no handle can only begin with
    [renderer_create]: every other declared function asks for one. *)
Theorem first_call_is_create
  (f : proto) (calls : list proto)
  (Hf : declared_in editor_h f)
  (Hav : handles_available false (f :: calls) = true) :
  f = renderer_create.
Proof.
  cbn [handles_available] in Hav.
  apply andb_true_iff in Hav. destruct Hav as [Hav _].
  apply In_editor_h_protos in Hf.
  destruct Hf as [-> | Hf]; [reflexivity|].
  repeat (destruct Hf as [-> | Hf]; [vm_compute in Hav; discriminate|]).
  subst f. vm_compute in Hav. discriminate.
Qed.

Lemma first_call_is_create_witness :
  declared_in editor_h renderer_create
  /\ handles_available false [renderer_create; renderer_get_val] = true
  /\ renderer_create = renderer_create.
Proof.
  assert (H : declared_in editor_h renderer_create)
    by (unfold declared_in; simpl; tauto).
  split; [exact H|]. split; [reflexivity|].
  exact (first_call_is_create renderer_create [renderer_get_val] H eq_refl).
Defined.

Lemma handles_stay_available (calls : list proto) :
  Forall (declared_in editor_h) calls ->
  handles_available true calls = true.
Proof.
  induction 1 as [|f r Hf _ IH]; cbn [handles_available]; [reflexivity|].
  rewrite orb_true_r. simpl.
  assert (E : is_teardown_name (f_name f) = false).
  { apply In_editor_h_protos in Hf.
    repeat (destruct Hf as [-> | Hf]; [reflexivity|]).
    subst f. reflexivity. }
  rewrite E. simpl. exact IH.
Qed.

(** After [renderer_create] the declared functions may be called in any
    order and any number of times: none of them is named as taking the
    handle away, so each call finds one. *)
Theorem any_sequence_after_create
  (calls : list proto) (Hc : Forall (declared_in editor_h) calls) :
  handles_available false (renderer_create :: calls) = true.
Proof.
  cbn [handles_available].
  change (takes Renderer renderer_create) with false.
  change (returns Renderer renderer_create) with true.
  rewrite orb_true_r. simpl. apply handles_stay_available, Hc.
Qed.

Lemma any_sequence_after_create_witness :
  Forall (declared_in editor_h)
         [renderer_insert_text; renderer_draw; renderer_get_val;
          renderer_draw]
  /\ handles_available false
       [renderer_create; renderer_insert_text; renderer_draw;
        renderer_get_val; renderer_draw] = true.
Proof.
  assert (H : Forall (declared_in editor_h)
                [renderer_insert_text; renderer_draw; renderer_get_val;
                 renderer_draw])
    by (repeat (apply Forall_cons;
                [unfold declared_in; simpl; tauto|]); apply Forall_nil).
  split; [exact H | exact (any_sequence_after_create _ H)].
Defined.

(** ** Pointers to const data *)

Lemma unqual_subst_name_char n d t :
  unqual t = TChar -> unqual (subst_name n d t) = TChar.
Proof.
  induction t as [| |m|u IH|u IH|a u IH]; simpl; intros Ht;
    try discriminate; [reflexivity | apply IH; exact Ht | apply IH; exact Ht].
Qed.

Lemma unqual_resolve_char h t :
  unqual t = TChar -> unqual (resolve h t) = TChar.
Proof.
  unfold resolve. generalize (rev (typedefs h)) as l. intros l. revert t.
  induction l as [|nd l IH]; intros t Ht; simpl; [exact Ht|].
  apply IH, unqual_subst_name_char, Ht.
Qed.

Lemma unqual_meaning_char h t :
  unqual t = TChar -> unqual (meaning h t) = TChar.
Proof.
  intros Ht. unfold meaning, expand. simpl.
  apply unqual_subst_name_char, unqual_resolve_char, Ht.
Qed.

(** The text of [renderer_insert_text] is the one parameter of the
    interface to which a pointer to const data can be passed; everywhere
    else the const qualifier would be lost and the call is rejected. *)
Theorem const_pointer_only_as_text
  (f : proto) (k : nat) (p t : ctype)
  (Hf : declared_in editor_h f)
  (Hk : nth_error (param_types f) k = Some p)
  (Ht : is_const t = true)
  (Hacc : accepts editor_h p (ArgOf (TPtr t)) = true) :
  f = renderer_insert_text /\ k = 1.
Proof.
  destruct (accepts_const_pointer _ _ _ Ht Hacc) as [d [Hp Hd]].
  clear Hacc. apply In_editor_h_protos in Hf.
  repeat (destruct Hf as [-> | Hf];
    [destruct k as [|[|[|[|k]]]]; simpl in Hk;
     try (destruct k; discriminate); try discriminate;
     inversion Hk; subst p; vm_compute in Hp;
     first [discriminate
           | inversion Hp; subst d;
             first [discriminate | split; reflexivity]]|]).
  subst f.
  destruct k as [|[|k]]; simpl in Hk;
    try (destruct k; discriminate); try discriminate.
  inversion Hk; subst p. vm_compute in Hp. inversion Hp; subst d.
  discriminate.
Qed.

Lemma const_pointer_only_as_text_witness :
  declared_in editor_h renderer_insert_text
  /\ nth_error (param_types renderer_insert_text) 1
     = Some (TPtr (TConst TChar))
  /\ is_const (TConst TChar) = true
  /\ accepts editor_h (TPtr (TConst TChar))
             (ArgOf (TPtr (TConst TChar))) = true
  /\ renderer_insert_text = renderer_insert_text /\ 1 = 1.
Proof.
  assert (H : declared_in editor_h renderer_insert_text)
    by (unfold declared_in; simpl; tauto).
  split; [exact H|]. split; [reflexivity|]. split; [reflexivity|].
  split; [reflexivity|].
  exact (const_pointer_only_as_text renderer_insert_text 1
           (TPtr (TConst TChar)) (TConst TChar) H eq_refl eq_refl eq_refl).
Defined.

(** [renderer_insert_text] can be called with a buffer of characters
    however qualified: const or not, the pointer is accepted as its
    text. *)
Theorem insert_text_accepts_any_char_buffer
  (t : ctype) (Ht : unqual t = TChar) :
  call_ok editor_h (param_types renderer_insert_text)
          [ArgOf Renderer; ArgOf (TPtr t); ArgOf (TNamed "size_t")] = true.
Proof.
  cbn [call_ok param_types renderer_insert_text f_params map named p_type].
  change (accepts editor_h Renderer (ArgOf Renderer)) with true.
  change (accepts editor_h (TNamed "size_t") (ArgOf (TNamed "size_t")))
    with true.
  rewrite andb_true_r. cbn [andb].
  unfold accepts. rewrite !meaning_ptr. cbn [unqual].
  change (meaning editor_h (TConst TChar)) with (TConst TChar).
  unfold pointee_ok. cbn [unqual is_const].
  rewrite (unqual_meaning_char _ _ Ht). simpl. apply implb_true_r.
Qed.

Lemma insert_text_accepts_any_char_buffer_witness :
  unqual TChar = TChar
  /\ call_ok editor_h (param_types renderer_insert_text)
             [ArgOf Renderer; ArgOf (TPtr TChar); ArgOf (TNamed "size_t")]
     = true.
Proof.
  split; [reflexivity|].
  exact (insert_text_accepts_any_char_buffer TChar eq_refl).
Defined.
